(** * lmdb++.h: the error model and the environment procedures of the
    C++11 wrapper for LMDB, embedded in Rocq.

    The header is a translation layer in front of the engine's C interface:
    every wrapper calls one primitive of <lmdb.h>, inspects the returned
    status code and throws through [raise] when it is not [MDB_SUCCESS].
    The embedding keeps that shape: the primitives of <lmdb.h> are the
    fields of a class [Lmdb] (the engine is a collaborator, every theorem
    holds for each of its implementations), the C++ code is written in a
    state-and-exception monad [M] over a [world] that holds the engine's
    state, the caller's handle variables, the thread-local buffers of
    [what] and a ghost trace of the calls that cross the boundary. *)

From stdpp Require Import base strings gmap list.
From Stdlib Require Import ZArith Ascii.

Local Open Scope Z_scope.

(** ** The boundary: <lmdb.h> *)

(** Modelled from the spec: the value of the constant MDB_SUCCESS of
    <lmdb.h>, a header that is not part of this repository; the data model
    says that zero denotes success. *)
Definition MDB_SUCCESS : Z := 0.

(** What the header takes from <lmdb.h>. A handle [MDB_env*] and the address
    [MDB_env**] of a variable holding one are opaque numbers ([N]); C's
    [int], [unsigned int], [size_t] and [mdb_mode_t] arguments are integers,
    passed through without arithmetic. [engine] is the state of the storage
    engine; a primitive maps it to the status code it returns and the
    engine's next state. [engine_env_create] also tells what it assigned
    through its output parameter, if anything. [mdb_env_close] returns
    [void]. The two distinguished codes are case labels of one [switch], so
    they differ, and they are error codes, so they are not zero. *)
Class Lmdb := {
  MDB_KEYEXIST : Z;
  MDB_NOTFOUND : Z;
  case_labels_distinct : MDB_KEYEXIST ≠ MDB_NOTFOUND;
  MDB_KEYEXIST_nonzero : MDB_KEYEXIST ≠ MDB_SUCCESS;
  MDB_NOTFOUND_nonzero : MDB_NOTFOUND ≠ MDB_SUCCESS;
  engine : Type;
  engine_env_create : engine → Z * option N * engine;
  engine_env_open : N → string → Z → Z → engine → Z * engine;
  engine_env_close : N → engine → engine;
  engine_env_set_flags : N → Z → Z → engine → Z * engine;
  engine_env_set_mapsize : N → Z → engine → Z * engine;
  engine_env_set_maxreaders : N → Z → engine → Z * engine;
  engine_env_set_maxdbs : N → Z → engine → Z * engine;
  engine_env_sync : N → Z → engine → Z * engine;
  engine_strerror : Z → string;
}.

(** ** The exception classes *)

(** The classes of the hierarchy: [lmdb::error] derives from
    [std::runtime_error] (which derives from [std::exception]), and the two
    final classes derive from [lmdb::error]. *)
Inductive class :=
| std_exception
| std_runtime_error
| lmdb_error
| lmdb_key_exist_error
| lmdb_not_found_error.

#[global] Instance class_eq_dec : EqDecision class.
Proof. solve_decision. Defined.

(** The direct public base of a class. *)
Definition base (c : class) : option class :=
  match c with
  | std_exception => None
  | std_runtime_error => Some std_exception
  | lmdb_error => Some std_runtime_error
  | lmdb_key_exist_error => Some lmdb_error
  | lmdb_not_found_error => Some lmdb_error
  end.

(** [derives n d b]: [b] is [d] or a base of [d] at most [n] steps up. *)
Fixpoint derives (n : nat) (d b : class) : bool :=
  bool_decide (d = b) ||
  match n with
  | O => false
  | S n' => match base d with
            | Some d' => derives n' d' b
            | None => false
            end
  end.

(** A handler [catch (const b&)] matches an exception whose dynamic class is
    [d] when [b] is [d] or one of its public bases; the hierarchy is three
    steps deep. *)
Definition is_a (d b : class) : bool := derives 3 d b.

(** An exception object: its dynamic class, the string that the
    [std::runtime_error] subobject copied at construction, and the
    [const int _code] member. A C string ([const char*]) is a [string]:
    the characters before its terminator. *)
Record exception_object := Exception {
  dynamic_type : class;
  what_arg : string;
  _code : Z;
}.

#[global] Instance exception_object_eq_dec : EqDecision exception_object.
Proof. solve_decision. Defined.

(** The constructor [error(origin, rc)], and the constructors the two
    derived classes inherit with [using error::error]. *)
Definition error (origin : string) (rc : Z) : exception_object :=
  {| dynamic_type := lmdb_error; what_arg := origin; _code := rc |}.

Definition key_exist_error (origin : string) (rc : Z) : exception_object :=
  {| dynamic_type := lmdb_key_exist_error; what_arg := origin; _code := rc |}.

Definition not_found_error (origin : string) (rc : Z) : exception_object :=
  {| dynamic_type := lmdb_not_found_error; what_arg := origin; _code := rc |}.

(** ** The ghost trace *)

(** One event for each call that crosses the boundary, with the arguments
    as the engine receives them, and one for each entry into [raise]. *)
Inductive event :=
| Ev_mdb_env_create (env : N)
| Ev_mdb_env_open (env : N) (path : string) (flags mode : Z)
| Ev_mdb_env_close (env : N)
| Ev_mdb_env_set_flags (env : N) (flags onoff : Z)
| Ev_mdb_env_set_mapsize (env : N) (size : Z)
| Ev_mdb_env_set_maxreaders (env : N) (readers : Z)
| Ev_mdb_env_set_maxdbs (env : N) (dbs : Z)
| Ev_mdb_env_sync (env : N) (force : Z)
| Ev_mdb_strerror (err : Z)
| Ev_raise (origin : string) (rc : Z).

#[global] Instance event_eq_dec : EqDecision event.
Proof. solve_decision. Defined.

(** The events that are calls of a status-returning or closing primitive. *)
Definition is_primitive_call (ev : event) : bool :=
  match ev with
  | Ev_mdb_strerror _ | Ev_raise _ _ => false
  | _ => true
  end.

Definition is_raise (ev : event) : bool :=
  match ev with
  | Ev_raise _ _ => true
  | _ => false
  end.

Definition is_strerror (ev : event) : bool :=
  match ev with
  | Ev_mdb_strerror _ => true
  | _ => false
  end.

(** A [const char*] that points into the [what] buffer of a thread. *)
Inductive char_ptr := Buffer_of (t : nat).

#[global] Instance char_ptr_eq_dec : EqDecision char_ptr.
Proof. solve_decision. Defined.

Section Wrapper.
Context {L : Lmdb}.

(** ** The world and the monad *)

(** [eng]: the engine; [slots]: the caller's [MDB_env*] variables, by
    address; [buffer]: the contents, as a C string, of the
    [static thread_local char buffer[1024]] of [what], one per thread
    (absent: never written, zero-initialised, the empty string);
    [running]: the thread that executes; [trace]: the events so far. *)
Record world := World {
  eng : engine;
  slots : gmap N N;
  buffer : gmap nat string;
  running : nat;
  trace : list event;
}.

Definition set_eng (e : engine) (w : world) : world :=
  {| eng := e; slots := slots w; buffer := buffer w;
     running := running w; trace := trace w |}.

Definition set_slots (s : gmap N N) (w : world) : world :=
  {| eng := eng w; slots := s; buffer := buffer w;
     running := running w; trace := trace w |}.

Definition set_buffer (b : gmap nat string) (w : world) : world :=
  {| eng := eng w; slots := slots w; buffer := b;
     running := running w; trace := trace w |}.

Definition set_running (t : nat) (w : world) : world :=
  {| eng := eng w; slots := slots w; buffer := buffer w;
     running := t; trace := trace w |}.

Definition record_event (ev : event) (w : world) : world :=
  {| eng := eng w; slots := slots w; buffer := buffer w;
     running := running w; trace := trace w ++ [ev] |}.

(** How a call ends: it returns a value or it leaves by an exception. *)
Inductive outcome (A : Type) :=
| Returned (a : A)
| Thrown (e : exception_object).
Arguments Returned {A} a.
Arguments Thrown {A} e.

Definition M (A : Type) : Type := world → outcome A * world.

#[global] Instance M_ret : MRet M := λ A a w, (Returned a, w).

#[global] Instance M_bind : MBind M := λ A B f m w,
  match m w with
  | (Returned a, w') => f a w'
  | (Thrown e, w') => (Thrown e, w')
  end.

(** [throw e]. *)
Definition throw {A} (e : exception_object) : M A := λ w, (Thrown e, w).

(** [try { body } catch (const T& e) { handler e }]. *)
Definition try_catch {A} (body : M A) (T : class)
    (handler : exception_object → M A) : M A := λ w,
  match body w with
  | (Thrown e, w') =>
      if is_a (dynamic_type e) T then handler e w' else (Thrown e, w')
  | r => r
  end.

(** A call of a primitive that returns a status code. *)
Definition engine_call (ev : event) (f : engine → Z * engine) : M Z := λ w,
  let '(rc, e') := f (eng w) in
  (Returned rc, set_eng e' (record_event ev w)).

(** [::mdb_env_create(env)]: the primitive may assign through [env]. *)
Definition mdb_env_create (env : N) : M Z := λ w,
  let '(rc, out, e') := engine_env_create (eng w) in
  let w1 := set_eng e' (record_event (Ev_mdb_env_create env) w) in
  (Returned rc,
   match out with
   | Some h => set_slots (<[env := h]> (slots w1)) w1
   | None => w1
   end).

Definition mdb_env_open (env : N) (path : string) (flags mode : Z) : M Z :=
  engine_call (Ev_mdb_env_open env path flags mode)
              (engine_env_open env path flags mode).

(** [::mdb_env_close(env)] returns nothing. *)
Definition mdb_env_close (env : N) : M unit := λ w,
  (Returned tt,
   set_eng (engine_env_close env (eng w)) (record_event (Ev_mdb_env_close env) w)).

Definition mdb_env_set_flags (env : N) (flags onoff : Z) : M Z :=
  engine_call (Ev_mdb_env_set_flags env flags onoff)
              (engine_env_set_flags env flags onoff).

Definition mdb_env_set_mapsize (env : N) (size : Z) : M Z :=
  engine_call (Ev_mdb_env_set_mapsize env size)
              (engine_env_set_mapsize env size).

Definition mdb_env_set_maxreaders (env : N) (readers : Z) : M Z :=
  engine_call (Ev_mdb_env_set_maxreaders env readers)
              (engine_env_set_maxreaders env readers).

Definition mdb_env_set_maxdbs (env : N) (dbs : Z) : M Z :=
  engine_call (Ev_mdb_env_set_maxdbs env dbs)
              (engine_env_set_maxdbs env dbs).

Definition mdb_env_sync (env : N) (force : Z) : M Z :=
  engine_call (Ev_mdb_env_sync env force) (engine_env_sync env force).

(** [::mdb_strerror(err)]: the engine's text for a code. *)
Definition mdb_strerror (err : Z) : M string := λ w,
  (Returned (engine_strerror err), record_event (Ev_mdb_strerror err) w).

(** ** Error handling: class [lmdb::error] *)

(** [int code() const noexcept { return _code; }] *)
Definition code (this : exception_object) : M Z :=
  mret (_code this).

(** [std::runtime_error::what()], called without virtual dispatch: the
    string given at construction. *)
Definition runtime_error_what (this : exception_object) : M string :=
  mret (what_arg this).

(** [const char* origin() const noexcept { return runtime_error::what(); }] *)
Definition origin (this : exception_object) : M string :=
  runtime_error_what this.

(** [std::snprintf(buffer, size, ...)] into the running thread's buffer: at
    most [size - 1] characters of the formatted text are stored, followed
    by the terminator; nothing is stored when [size] is zero. *)
Definition snprintf_buffer (size : nat) (formatted : string) : M unit := λ w,
  (Returned tt,
   match size with
   | O => w
   | S n =>
       set_buffer (<[running w := String.substring 0 n formatted]> (buffer w)) w
   end).

(** The string at a pointer. *)
Definition c_str (p : char_ptr) (w : world) : string :=
  match p with
  | Buffer_of t => default "" (buffer w !! t)
  end.

(** The address of the running thread's [buffer]. *)
Definition buffer_address : M char_ptr := λ w,
  (Returned (Buffer_of (running w)), w).

(** [what()]: formats ["%s: %s"] with [origin()] and
    [::mdb_strerror(code())] into the thread-local buffer of 1024 bytes and
    returns the buffer. *)
Definition what (this : exception_object) : M char_ptr :=
  o ← origin this;
  c ← code this;
  s ← mdb_strerror c;
  _ ← snprintf_buffer 1024 (o +:+ ": " +:+ s);
  buffer_address.

(** Entering [raise] is recorded in the trace. *)
Definition enter_raise (origin : string) (rc : Z) : M unit := λ w,
  (Returned tt, record_event (Ev_raise origin rc) w).

(** [lmdb::error::raise]: the [switch] over [rc], with its two case labels
    and its default. *)
Definition raise (origin : string) (rc : Z) : M unit :=
  _ ← enter_raise origin rc;
  if bool_decide (rc = MDB_KEYEXIST) then throw (key_exist_error origin rc)
  else if bool_decide (rc = MDB_NOTFOUND) then throw (not_found_error origin rc)
  else throw (error origin rc).

(** ** Procedural interface *)

(** Each procedure: [const int rc = ::primitive(...);]
    [if (rc != MDB_SUCCESS) { error::raise("primitive", rc); }]. *)

Definition env_create (env : N) : M unit :=
  rc ← mdb_env_create env;
  if bool_decide (rc ≠ MDB_SUCCESS) then raise "mdb_env_create" rc
  else mret tt.

Definition env_open (env : N) (path : string) (flags mode : Z) : M unit :=
  rc ← mdb_env_open env path flags mode;
  if bool_decide (rc ≠ MDB_SUCCESS) then raise "mdb_env_open" rc
  else mret tt.

(** [@note never throws an exception]: the primitive is called and nothing
    is inspected. *)
Definition env_close (env : N) : M unit :=
  mdb_env_close env.

(** The toggle reaches the engine as [onoff ? 1 : 0]; the header declares
    [true] as its default. *)
Definition env_set_flags (env : N) (flags : Z) (onoff : bool) : M unit :=
  rc ← mdb_env_set_flags env flags (if onoff then 1 else 0);
  if bool_decide (rc ≠ MDB_SUCCESS) then raise "mdb_env_set_flags" rc
  else mret tt.

Definition env_set_map_size (env : N) (size : Z) : M unit :=
  rc ← mdb_env_set_mapsize env size;
  if bool_decide (rc ≠ MDB_SUCCESS) then raise "mdb_env_set_mapsize" rc
  else mret tt.

Definition env_set_max_readers (env : N) (count : Z) : M unit :=
  rc ← mdb_env_set_maxreaders env count;
  if bool_decide (rc ≠ MDB_SUCCESS) then raise "mdb_env_set_maxreaders" rc
  else mret tt.

Definition env_set_max_dbs (env : N) (count : Z) : M unit :=
  rc ← mdb_env_set_maxdbs env count;
  if bool_decide (rc ≠ MDB_SUCCESS) then raise "mdb_env_set_maxdbs" rc
  else mret tt.

(** The [bool force] (default [true]) converts to the primitive's [int]
    parameter. *)
Definition env_sync (env : N) (force : bool) : M unit :=
  rc ← mdb_env_sync env (Z.b2z force);
  if bool_decide (rc ≠ MDB_SUCCESS) then raise "mdb_env_sync" rc
  else mret tt.

(** ** The seven fallible procedures as one family *)

(** A call of one of the seven procedures that can throw, with its
    arguments. *)
Inductive fallible_call :=
| Env_create (env : N)
| Env_open (env : N) (path : string) (flags mode : Z)
| Env_set_flags (env : N) (flags : Z) (onoff : bool)
| Env_set_map_size (env : N) (size : Z)
| Env_set_max_readers (env : N) (count : Z)
| Env_set_max_dbs (env : N) (count : Z)
| Env_sync (env : N) (force : bool).

(** The procedure of the header that a call runs. *)
Definition procedure (c : fallible_call) : M unit :=
  match c with
  | Env_create env => env_create env
  | Env_open env path flags mode => env_open env path flags mode
  | Env_set_flags env flags onoff => env_set_flags env flags onoff
  | Env_set_map_size env size => env_set_map_size env size
  | Env_set_max_readers env count => env_set_max_readers env count
  | Env_set_max_dbs env count => env_set_max_dbs env count
  | Env_sync env force => env_sync env force
  end.

(** The specification's side of the comparison: the primitive that each
    procedure is documented to forward to, and the literal it is documented
    to raise with. *)
Definition primitive_of (c : fallible_call) : M Z :=
  match c with
  | Env_create env => mdb_env_create env
  | Env_open env path flags mode => mdb_env_open env path flags mode
  | Env_set_flags env flags onoff =>
      mdb_env_set_flags env flags (if onoff then 1 else 0)
  | Env_set_map_size env size => mdb_env_set_mapsize env size
  | Env_set_max_readers env count => mdb_env_set_maxreaders env count
  | Env_set_max_dbs env count => mdb_env_set_maxdbs env count
  | Env_sync env force => mdb_env_sync env (Z.b2z force)
  end.

Definition name_of (c : fallible_call) : string :=
  match c with
  | Env_create _ => "mdb_env_create"
  | Env_open _ _ _ _ => "mdb_env_open"
  | Env_set_flags _ _ _ => "mdb_env_set_flags"
  | Env_set_map_size _ _ => "mdb_env_set_mapsize"
  | Env_set_max_readers _ _ => "mdb_env_set_maxreaders"
  | Env_set_max_dbs _ _ => "mdb_env_set_maxdbs"
  | Env_sync _ _ => "mdb_env_sync"
  end.

(** The template of the specification: call the primitive, raise with the
    operation's name when the status is not success, else return. *)
Definition template (primitive : M Z) (name : string) : M unit :=
  status ← primitive;
  if bool_decide (status ≠ MDB_SUCCESS) then raise name status else mret tt.

(** The specification's selection rule: the class that a status code
    selects. *)
Definition selected_class (rc : Z) : class :=
  if decide (rc = MDB_KEYEXIST) then lmdb_key_exist_error
  else if decide (rc = MDB_NOTFOUND) then lmdb_not_found_error
  else lmdb_error.

(** Sequences of accessor calls on one exception object. *)
Inductive accessor := Acc_code | Acc_origin.

Definition call_accessor (a : accessor) (this : exception_object)
    : M (Z + string) :=
  match a with
  | Acc_code => c ← code this; mret (inl c)
  | Acc_origin => o ← origin this; mret (inr o)
  end.

Fixpoint call_accessors (l : list accessor) (this : exception_object)
    : M (list (Z + string)) :=
  match l with
  | [] => mret []
  | a :: l' =>
      r ← call_accessor a this;
      rs ← call_accessors l' this;
      mret (r :: rs)
  end.

(** The specification's message: the origin, the separator and the
    engine's text for the code. *)
Definition formatted_message (e : exception_object) : string :=
  what_arg e +:+ ": " +:+ engine_strerror (_code e).

(** Thread [t] queries the message of [e]. *)
Definition query_on (t : nat) (e : exception_object) : M char_ptr := λ w,
  what e (set_running t w).

(** A schedule of queries, each by some thread on some exception object,
    run one after the other. *)
Fixpoint run_queries (qs : list (nat * exception_object)) (w : world) : world :=
  match qs with
  | [] => w
  | (t, e) :: qs' => run_queries qs' (query_on t e w).2
  end.

(** Counting in the part of a trace that a run appended. *)
Definition appended (before after : world) : list event :=
  drop (length (trace before)) (trace after).

Definition count_events (p : event → bool) (l : list event) : nat :=
  length (List.filter p l).

(** ** Calls in sequence *)

(** A block of statements, each a call of a fallible procedure: an
    exception leaves the block. *)
Fixpoint run_all (cs : list fallible_call) : M unit :=
  match cs with
  | [] => mret tt
  | c :: cs' => _ ← procedure c; run_all cs'
  end.

(** The world after the primitives of the calls alone, one after the
    other, and whether each of them answers [MDB_SUCCESS] on the way. *)
Fixpoint run_primitives (cs : list fallible_call) (w : world) : world :=
  match cs with
  | [] => w
  | c :: cs' => run_primitives cs' (primitive_of c w).2
  end.

Fixpoint all_succeed (cs : list fallible_call) (w : world) : Prop :=
  match cs with
  | [] => True
  | c :: cs' =>
      (primitive_of c w).1 = Returned MDB_SUCCESS ∧
      all_succeed cs' (primitive_of c w).2
  end.

End Wrapper.

Arguments Returned {A} a.
Arguments Thrown {A} e.

(** ** A scripted engine

    An implementation of the boundary on which the definitions run: each
    call of a status-returning primitive answers with the next code of a
    script (with [MDB_SUCCESS] once the script is used up); creation hands
    out fresh handles and the engine keeps the handles that are created but
    not opened and those that are open. The two distinguished codes have
    the values that LMDB's header gives them. *)

Record scripted := Scripted {
  script : list Z;
  next_handle : N;
  unopened : list N;
  opened : list N;
}.

Definition answer (s : scripted) : Z * scripted :=
  match script s with
  | [] => (MDB_SUCCESS, s)
  | rc :: rest =>
      (rc, {| script := rest; next_handle := next_handle s;
              unopened := unopened s; opened := opened s |})
  end.

Definition scripted_env_create (s : scripted) : Z * option N * scripted :=
  let '(rc, s') := answer s in
  if bool_decide (rc = MDB_SUCCESS) then
    (rc, Some (next_handle s'),
     {| script := script s'; next_handle := N.succ (next_handle s');
        unopened := next_handle s' :: unopened s'; opened := opened s' |})
  else (rc, None, s').

Definition scripted_env_open (env : N) (path : string) (flags mode : Z)
    (s : scripted) : Z * scripted :=
  let '(rc, s') := answer s in
  if bool_decide (rc = MDB_SUCCESS) then
    (rc, {| script := script s'; next_handle := next_handle s';
            unopened := filter (λ h, h ≠ env) (unopened s');
            opened := env :: opened s' |})
  else (rc, s').

Definition scripted_env_close (env : N) (s : scripted) : scripted :=
  {| script := script s; next_handle := next_handle s;
     unopened := filter (λ h, h ≠ env) (unopened s);
     opened := filter (λ h, h ≠ env) (opened s) |}.

Definition scripted_strerror (err : Z) : string :=
  if bool_decide (err = 0) then "Successful return: 0"
  else if bool_decide (err = -30799) then
    "MDB_KEYEXIST: Key/data pair already exists"
  else if bool_decide (err = -30798) then
    "MDB_NOTFOUND: No matching key/data pair found"
  else "Unknown error".

Definition scripted_lmdb : Lmdb := {|
  MDB_KEYEXIST := -30799;
  MDB_NOTFOUND := -30798;
  case_labels_distinct := ltac:(discriminate);
  MDB_KEYEXIST_nonzero := ltac:(discriminate);
  MDB_NOTFOUND_nonzero := ltac:(discriminate);
  engine := scripted;
  engine_env_create := scripted_env_create;
  engine_env_open := scripted_env_open;
  engine_env_close := scripted_env_close;
  engine_env_set_flags := λ _ _ _, answer;
  engine_env_set_mapsize := λ _ _, answer;
  engine_env_set_maxreaders := λ _ _, answer;
  engine_env_set_maxdbs := λ _ _, answer;
  engine_env_sync := λ _ _, answer;
  engine_strerror := scripted_strerror;
|}.

(** [n] copies of a character. *)
Fixpoint copies (n : nat) (c : ascii) : string :=
  match n with
  | O => EmptyString
  | S n' => String c (copies n' c)
  end.

(** The handles that the scripted engine holds as created and not open. *)
Definition listed_unopened (s : scripted) (h : N) : Prop :=
  h ∈ unopened s.

(** A world of the scripted engine in which nothing has happened yet: the
    script [l] is pending, no handle exists, thread [0] runs. *)
Definition fresh_world (l : list Z) : @world scripted_lmdb :=
  @World scripted_lmdb
    {| script := l; next_handle := 1; unopened := []; opened := [] |}
    ∅ ∅ 0%nat [].

(** * Properties *)

Section Properties.
Context {L : Lmdb}.

(** ** Unfolding the monad *)

Lemma bind_returned {A B} (m : M A) (f : A → M B) (w w' : world) (a : A) :
  m w = (Returned a, w') → (m ≫= f) w = f a w'.
Proof. intros H. unfold mbind, M_bind. by rewrite H. Qed.

Lemma bind_thrown {A B} (m : M A) (f : A → M B) (w w' : world) e :
  m w = (Thrown e, w') → (m ≫= f) w = (Thrown e, w').
Proof. intros H. unfold mbind, M_bind. by rewrite H. Qed.

Lemma appended_app (w w' : world) (l : list event) :
  trace w' = trace w ++ l → appended w w' = l.
Proof. intros H. unfold appended. rewrite H. apply drop_app_length. Qed.

(** ** The dispatch *)

(** [raise] records its entry and throws an object of the selected class
    that carries the two arguments. *)
Lemma raise_eq (name : string) (rc : Z) (w : world) :
  raise name rc w =
  (Thrown {| dynamic_type := selected_class rc; what_arg := name; _code := rc |},
   record_event (Ev_raise name rc) w).
Proof.
  unfold raise, selected_class, throw, enter_raise, mbind, M_bind.
  repeat case_bool_decide; repeat case_decide; try done.
Qed.

(** C1: for every origin and status code [raise] throws a
    [key_exist_error] when the code is [MDB_KEYEXIST], a [not_found_error]
    when it is [MDB_NOTFOUND] and the generic [error] in every other case,
    and it throws for every code. *)
Theorem raise_dispatch (name : string) (rc : Z) (w : world) :
  (rc = MDB_KEYEXIST →
     (raise name rc w).1 = Thrown (key_exist_error name rc)) ∧
  (rc = MDB_NOTFOUND →
     (raise name rc w).1 = Thrown (not_found_error name rc)) ∧
  (rc ≠ MDB_KEYEXIST → rc ≠ MDB_NOTFOUND →
     (raise name rc w).1 = Thrown (error name rc)) ∧
  (∃ e, (raise name rc w).1 = Thrown e).
Proof.
  rewrite raise_eq. unfold selected_class. simpl.
  split_and!.
  - intros ->. by rewrite decide_True.
  - intros ->. rewrite decide_False; [by rewrite decide_True|].
    intros H. by apply case_labels_distinct.
  - intros H1 H2. by rewrite !decide_False.
  - eauto.
Qed.

(** C10: [raise] never returns, whatever the status code: it throws for
    each of them, and for the code 0 of [MDB_SUCCESS] the default branch
    throws the generic [error] with code 0 and the given origin. *)
Theorem raise_never_returns (name : string) (w : world) :
  (∀ rc, ∃ e, raise name rc w = (Thrown e, record_event (Ev_raise name rc) w)) ∧
  (∀ rc a w', raise name rc w ≠ (Returned a, w')) ∧
  raise name MDB_SUCCESS w =
    (Thrown (error name 0), record_event (Ev_raise name 0) w).
Proof.
  split_and!.
  - intros rc. rewrite raise_eq. eauto.
  - intros rc a w'. by rewrite raise_eq.
  - rewrite raise_eq. unfold selected_class.
    rewrite decide_False; [|intros H; by apply MDB_KEYEXIST_nonzero].
    rewrite decide_False; [|intros H; by apply MDB_NOTFOUND_nonzero].
    done.
Qed.

(** ** The accessors *)

(** An accessor call returns the member it reads and changes nothing. *)
Lemma call_accessor_eq (a : accessor) (e : exception_object) (w : world) :
  call_accessor a e w =
  (Returned (match a with
             | Acc_code => inl (_code e)
             | Acc_origin => inr (what_arg e)
             end), w).
Proof. by destruct a. Qed.

Lemma call_accessors_eq (l : list accessor) (e : exception_object) (w : world) :
  call_accessors l e w =
  (Returned (map (λ a, match a with
                       | Acc_code => inl (_code e)
                       | Acc_origin => inr (what_arg e)
                       end) l), w).
Proof.
  induction l as [|a l IH]; [done|]. simpl.
  rewrite (bind_returned _ _ _ _ _ (call_accessor_eq a e w)).
  by rewrite (bind_returned _ _ _ _ _ IH).
Qed.

(** C4: for every origin and every nonzero status code the object that
    [raise] throws answers [code()] with that code and [origin()] with that
    origin; the accessors are pure: each call, in any world, returns the
    construction-time value and leaves the world as it was, and so does any
    sequence of accessor calls, in any order. *)
Theorem raised_code_and_origin (name : string) (rc : Z) (w : world) :
  rc ≠ 0 →
  ∃ e w', raise name rc w = (Thrown e, w') ∧
    (∀ w2, code e w2 = (Returned rc, w2)) ∧
    (∀ w2, origin e w2 = (Returned name, w2)) ∧
    (∀ l w2, call_accessors l e w2 =
       (Returned (map (λ a, match a with
                            | Acc_code => inl rc
                            | Acc_origin => inr name
                            end) l), w2)).
Proof.
  intros _. rewrite raise_eq. eexists _, _. split; [done|].
  split_and!; try done.
  intros l w2. by rewrite call_accessors_eq.
Qed.

(** ** The hierarchy *)

(** [is_a] decides the reflexive and transitive closure of the direct-base
    relation. *)
Lemma is_a_spec (d b : class) :
  is_a d b = true ↔ rtc (λ x y, base x = Some y) d b.
Proof.
  split.
  - destruct d, b; try discriminate; intros _;
      repeat (first [apply rtc_refl | eapply rtc_l; [reflexivity|]]).
  - induction 1 as [x|x y z Hxy _ IH]; [by destruct x|].
    destruct x; simplify_eq/=; by destruct z.
Qed.

(** C6: the object thrown for [MDB_KEYEXIST] is a [key_exist_error] and the
    one thrown for [MDB_NOTFOUND] is a [not_found_error]; both classes are
    also [lmdb::error]s (and [std::runtime_error]s), so a handler for
    [lmdb::error] catches what [raise] throws for every code, while a
    handler for one of the two final classes catches that class only. *)
Theorem classification_refines_base (name : string) (w : world) :
  (raise name MDB_KEYEXIST w).1 = Thrown (key_exist_error name MDB_KEYEXIST) ∧
  (raise name MDB_NOTFOUND w).1 = Thrown (not_found_error name MDB_NOTFOUND) ∧
  is_a lmdb_key_exist_error lmdb_error = true ∧
  is_a lmdb_not_found_error lmdb_error = true ∧
  is_a lmdb_error lmdb_error = true ∧
  (∀ rc (handler : exception_object → M unit), ∃ e w1,
     raise name rc w = (Thrown e, w1) ∧
     try_catch (raise name rc) lmdb_error handler w = handler e w1 ∧
     try_catch (raise name rc) std_runtime_error handler w = handler e w1) ∧
  (∀ d, is_a d lmdb_key_exist_error = true ↔ d = lmdb_key_exist_error) ∧
  (∀ d, is_a d lmdb_not_found_error = true ↔ d = lmdb_not_found_error).
Proof.
  split_and!; try done.
  - rewrite raise_eq. unfold selected_class. by rewrite decide_True.
  - rewrite raise_eq. unfold selected_class.
    rewrite decide_False; [by rewrite decide_True|].
    intros H. by apply case_labels_distinct.
  - intros rc handler. eexists _, _. split; [apply raise_eq|].
    unfold try_catch. rewrite raise_eq. simpl.
    unfold selected_class. by repeat case_decide.
  - intros d. by destruct d.
  - intros d. by destruct d.
Qed.

(** ** Closing *)

(** C3: [env_close] never throws: for every handle and every world (so also
    after an [env_open] that failed, and after an [env_create] with no
    [env_open]) it makes the one call of the engine's close primitive and
    returns. *)
Theorem env_close_never_raises (env : N) (w : world) :
  env_close env w =
    (Returned tt,
     set_eng (engine_env_close env (eng w))
             (record_event (Ev_mdb_env_close env) w)) ∧
  (∀ e w', env_close env w ≠ (Thrown e, w')) ∧
  (∀ path flags mode,
     (env_close env (env_open env path flags mode w).2).1 = Returned tt) ∧
  (∀ slot h,
     (env_close h (env_create slot w).2).1 = Returned tt).
Proof. done. Qed.

(** ** The fallible procedures *)

(** Each procedure is the template at its primitive and its name. *)
Lemma procedure_template (c : fallible_call) :
  procedure c = template (primitive_of c) (name_of c).
Proof. by destruct c. Qed.

Lemma engine_call_eq (ev : event) (f : engine → Z * engine) (w : world) :
  engine_call ev f w =
  (Returned (f (eng w)).1, set_eng (f (eng w)).2 (record_event ev w)).
Proof. unfold engine_call. by destruct (f (eng w)). Qed.

(** A primitive returns a status code; it appends its own event to the
    trace and leaves the buffers of [what] alone. *)
Lemma primitive_returns (c : fallible_call) (w : world) :
  ∃ rc w1 ev,
    primitive_of c w = (Returned rc, w1) ∧
    trace w1 = trace w ++ [ev] ∧ is_primitive_call ev = true ∧
    buffer w1 = buffer w ∧ running w1 = running w.
Proof.
  destruct c; simpl;
    try (unfold mdb_env_open, mdb_env_set_flags, mdb_env_set_mapsize,
           mdb_env_set_maxreaders, mdb_env_set_maxdbs, mdb_env_sync;
         rewrite engine_call_eq; by eexists _, _, _).
  unfold mdb_env_create.
  destruct (engine_env_create (eng w)) as [[rc out] e'].
  destruct out; by eexists _, _, _.
Qed.

Lemma template_success (m : M Z) (name : string) (w w1 : world) :
  m w = (Returned MDB_SUCCESS, w1) → template m name w = (Returned tt, w1).
Proof. intros H. unfold template. by rewrite (bind_returned _ _ _ _ _ H). Qed.

Lemma template_failure (m : M Z) (name : string) (w w1 : world) (rc : Z) :
  m w = (Returned rc, w1) → rc ≠ MDB_SUCCESS →
  template m name w = raise name rc w1.
Proof.
  intros H Hrc. unfold template. rewrite (bind_returned _ _ _ _ _ H).
  by rewrite bool_decide_true.
Qed.

(** C2: each of the seven fallible procedures makes one call of its
    primitive; it returns normally, in the world the primitive left, when
    the status is [MDB_SUCCESS]; otherwise it is exactly one run of [raise]
    with its name literal and the observed status in that world, which
    throws and adds nothing but the dispatch's own trace entry; hence it
    throws if and only if the status differs from [MDB_SUCCESS]. *)
Theorem procedure_raises_iff_failure (c : fallible_call) (w : world) :
  ∃ rc w1,
    primitive_of c w = (Returned rc, w1) ∧
    (rc = MDB_SUCCESS → procedure c w = (Returned tt, w1)) ∧
    (rc ≠ MDB_SUCCESS →
       procedure c w = raise (name_of c) rc w1 ∧
       (procedure c w).2 = record_event (Ev_raise (name_of c) rc) w1 ∧
       ∃ e, (procedure c w).1 = Thrown e) ∧
    ((∃ e w', procedure c w = (Thrown e, w')) ↔ rc ≠ MDB_SUCCESS) ∧
    count_events is_primitive_call (appended w (procedure c w).2) = 1%nat ∧
    count_events is_raise (appended w (procedure c w).2) =
      (if decide (rc = MDB_SUCCESS) then 0 else 1)%nat ∧
    appended w (procedure c w).2 =
      appended w w1 ++
      (if decide (rc = MDB_SUCCESS) then [] else [Ev_raise (name_of c) rc]).
Proof.
  destruct (primitive_returns c w) as (rc & w1 & ev & Hp & Ht & Hev & _).
  exists rc, w1. rewrite procedure_template.
  split; [done|].
  destruct (decide (rc = MDB_SUCCESS)) as [->|Hrc].
  - rewrite (template_success _ _ _ _ Hp). simpl.
    rewrite (appended_app _ _ _ Ht). unfold count_events. simpl. rewrite Hev.
    split_and!; try done.
    + split; [by intros (e & w' & [=])|done].
    + by destruct ev.
  - rewrite (template_failure _ _ _ _ _ Hp Hrc), raise_eq. simpl.
    assert (trace (record_event (Ev_raise (name_of c) rc) w1) =
            trace w ++ [ev; Ev_raise (name_of c) rc]) as Ht'.
    { simpl. rewrite Ht, <-app_assoc. done. }
    rewrite (appended_app _ _ _ Ht'), (appended_app _ _ _ Ht).
    unfold count_events. simpl. rewrite Hev.
    split_and!; try done; eauto.
    + split; [done|eauto].
    + by destruct ev.
Qed.

(** What a fallible procedure throws carries its name and the status code
    its primitive returned. *)
Lemma procedure_thrown (c : fallible_call) (w w' : world) e :
  procedure c w = (Thrown e, w') →
  what_arg e = name_of c ∧ _code e ≠ MDB_SUCCESS ∧
  (primitive_of c w).1 = Returned (_code e).
Proof.
  intros H.
  destruct (primitive_returns c w) as (rc & w1 & ev & Hp & _).
  rewrite procedure_template in H.
  destruct (decide (rc = MDB_SUCCESS)) as [->|Hrc].
  - by rewrite (template_success _ _ _ _ Hp) in H.
  - rewrite (template_failure _ _ _ _ _ Hp Hrc), raise_eq in H.
    injection H as <- _. rewrite Hp. done.
Qed.

(** C7: the [origin()] of an error thrown by a wrapped operation is the
    name of its primitive: "mdb_env_create", "mdb_env_open",
    "mdb_env_set_flags", "mdb_env_set_mapsize", "mdb_env_set_maxreaders",
    "mdb_env_set_maxdbs" and "mdb_env_sync" for the seven procedures in
    the order of the header; [env_close] throws nothing. *)
Theorem origin_is_primitive_name (w w' : world) (e : exception_object) :
  (∀ env, env_create env w = (Thrown e, w') →
     (origin e w').1 = Returned "mdb_env_create") ∧
  (∀ env path flags mode, env_open env path flags mode w = (Thrown e, w') →
     (origin e w').1 = Returned "mdb_env_open") ∧
  (∀ env flags onoff, env_set_flags env flags onoff w = (Thrown e, w') →
     (origin e w').1 = Returned "mdb_env_set_flags") ∧
  (∀ env size, env_set_map_size env size w = (Thrown e, w') →
     (origin e w').1 = Returned "mdb_env_set_mapsize") ∧
  (∀ env count, env_set_max_readers env count w = (Thrown e, w') →
     (origin e w').1 = Returned "mdb_env_set_maxreaders") ∧
  (∀ env count, env_set_max_dbs env count w = (Thrown e, w') →
     (origin e w').1 = Returned "mdb_env_set_maxdbs") ∧
  (∀ env force, env_sync env force w = (Thrown e, w') →
     (origin e w').1 = Returned "mdb_env_sync") ∧
  (∀ env, env_close env w ≠ (Thrown e, w')).
Proof.
  split_and!; try done; intros;
    match goal with
    | H : env_create ?a _ = _ |- _ =>
        apply (procedure_thrown (Env_create a)) in H
    | H : env_open ?a ?b ?c ?d _ = _ |- _ =>
        apply (procedure_thrown (Env_open a b c d)) in H
    | H : env_set_flags ?a ?b ?c _ = _ |- _ =>
        apply (procedure_thrown (Env_set_flags a b c)) in H
    | H : env_set_map_size ?a ?b _ = _ |- _ =>
        apply (procedure_thrown (Env_set_map_size a b)) in H
    | H : env_set_max_readers ?a ?b _ = _ |- _ =>
        apply (procedure_thrown (Env_set_max_readers a b)) in H
    | H : env_set_max_dbs ?a ?b _ = _ |- _ =>
        apply (procedure_thrown (Env_set_max_dbs a b)) in H
    | H : env_sync ?a ?b _ = _ |- _ =>
        apply (procedure_thrown (Env_sync a b)) in H
    end;
    destruct H as [Ho _]; simpl; by rewrite Ho.
Qed.

(** ** Creation and the output slot *)

(** [env_create] stores nothing of its own: the caller's variables and the
    engine are as the primitive left them, whatever the engine does. *)
Lemma env_create_as_primitive (env : N) (w : world) :
  slots (env_create env w).2 = slots (mdb_env_create env w).2 ∧
  eng (env_create env w).2 = eng (mdb_env_create env w).2.
Proof.
  destruct (primitive_returns (Env_create env) w) as (rc & w1 & ev & Hp & _).
  simpl in Hp. change (env_create env) with (procedure (Env_create env)).
  rewrite procedure_template. simpl primitive_of. rewrite Hp.
  destruct (decide (rc = MDB_SUCCESS)) as [->|Hrc].
  - by rewrite (template_success _ _ _ _ Hp).
  - by rewrite (template_failure _ _ _ _ _ Hp Hrc), raise_eq.
Qed.

(** C8: [env_create] leaves the caller's variables as its primitive left
    them; so, with an engine whose creation primitive assigns through its
    output parameter only when it succeeds, and then assigns a handle that
    is valid and unopened, a failing [env_create] leaves the caller's slot
    (and every other handle variable) as it was, and a succeeding one
    leaves a valid, unopened handle in the slot. *)
Theorem env_create_slot (env : N) (w : world) :
  slots (env_create env w).2 = slots (mdb_env_create env w).2 ∧
  ∀ valid_unopened : engine → N → Prop,
    (∀ s rc out s',
       engine_env_create s = (rc, out, s') → rc ≠ MDB_SUCCESS → out = None) →
    (∀ s out s',
       engine_env_create s = (MDB_SUCCESS, out, s') →
       ∃ h, out = Some h ∧ valid_unopened s' h) →
    (∀ e w', env_create env w = (Thrown e, w') →
       slots w' = slots w ∧ slots w' !! env = slots w !! env) ∧
    (∀ w', env_create env w = (Returned tt, w') →
       ∃ h, slots w' !! env = Some h ∧ valid_unopened (eng w') h).
Proof.
  split; [apply env_create_as_primitive|].
  intros valid_unopened Hfail Hok.
  unfold env_create, mdb_env_create, mbind, M_bind.
  destruct (engine_env_create (eng w)) as [[rc out] e'] eqn:He.
  destruct (decide (rc = MDB_SUCCESS)) as [->|Hrc].
  - rewrite bool_decide_false by (intros H; by apply H).
    destruct (Hok _ _ _ He) as (h & -> & Hh).
    split; [done|]. intros w' [= <-]. exists h. simpl.
    by rewrite lookup_insert_eq.
  - rewrite bool_decide_true by done. rewrite (Hfail _ _ _ _ He Hrc).
    rewrite raise_eq. split; [|done].
    intros e w' [= _ <-]. done.
Qed.

(** ** The message *)

Lemma substring_whole (s : string) (n : nat) :
  (String.length s ≤ n)%nat → String.substring 0 n s = s.
Proof.
  revert n. induction s as [|c s IH]; intros [|n] Hn; simpl in *;
    try done; try lia.
  f_equal. apply IH. lia.
Qed.

Lemma substring_length_le (s : string) (n : nat) :
  (String.length (String.substring 0 n s) ≤ n)%nat.
Proof.
  revert n. induction s as [|c s IH]; intros [|n]; simpl; try lia.
  specialize (IH n). lia.
Qed.

Lemma string_length_app (s1 s2 : string) :
  String.length (s1 +:+ s2) = (String.length s1 + String.length s2)%nat.
Proof. induction s1 as [|c s1 IH]; simpl; [done|]. by rewrite IH. Qed.

(** [what] asks the engine for the text, stores the first 1023 characters
    of the formatted message in the running thread's buffer and returns
    that buffer. *)
Lemma what_eq (e : exception_object) (w : world) :
  what e w =
  (Returned (Buffer_of (running w)),
   set_buffer
     (<[running w := String.substring 0 1023 (formatted_message e)]> (buffer w))
     (record_event (Ev_mdb_strerror (_code e)) w)).
Proof. done. Qed.

Lemma procedure_buffer (c : fallible_call) (w : world) :
  buffer (procedure c w).2 = buffer w ∧
  count_events is_strerror (appended w (procedure c w).2) = 0%nat.
Proof.
  destruct (primitive_returns c w) as (rc & w1 & ev & Hp & Ht & Hev & Hb & _).
  rewrite procedure_template.
  destruct (decide (rc = MDB_SUCCESS)) as [->|Hrc].
  - rewrite (template_success _ _ _ _ Hp). simpl.
    rewrite (appended_app _ _ _ Ht). split; [done|]. by destruct ev.
  - rewrite (template_failure _ _ _ _ _ Hp Hrc), raise_eq. simpl.
    assert (trace (record_event (Ev_raise (name_of c) rc) w1) =
            trace w ++ [ev; Ev_raise (name_of c) rc]) as Ht'.
    { simpl. by rewrite Ht, <-app_assoc. }
    rewrite (appended_app _ _ _ Ht'). split; [done|]. by destruct ev.
Qed.

(** X9: the names that the procedures raise with are at most 22 characters
    long, so what a procedure throws has its message stored whole as long
    as the engine's text has at most 999 characters. *)
Lemma procedure_message_whole (c : fallible_call) (w w' w2 : world) e :
  procedure c w = (Thrown e, w') →
  (String.length (engine_strerror (_code e)) ≤ 999)%nat →
  c_str (Buffer_of (running w2)) (what e w2).2 =
    name_of c +:+ ": " +:+ engine_strerror (_code e).
Proof.
  intros H Hlen. destruct (procedure_thrown _ _ _ _ H) as (Hname & _).
  rewrite what_eq. unfold c_str. simpl. rewrite lookup_insert_eq. simpl.
  unfold formatted_message. rewrite Hname.
  apply substring_whole.
  rewrite !string_length_app.
  assert (String.length (name_of c) ≤ 22)%nat by (destruct c; simpl; lia).
  simpl. lia.
Qed.

(** C5 (as amended): querying [what] returns the running thread's buffer,
    which then holds the first 1023 characters of origin, ": " and the
    engine's text for the code, that is the whole of it when it is at most
    1023 characters long; the text is formatted by [what] alone, at each
    query: neither [raise] nor a procedure writes a buffer or asks the
    engine for the text. *)
Theorem what_message (e : exception_object) (w : world) :
  ∃ w', what e w = (Returned (Buffer_of (running w)), w') ∧
    c_str (Buffer_of (running w)) w' =
      String.substring 0 1023 (formatted_message e) ∧
    ((String.length (formatted_message e) ≤ 1023)%nat →
       c_str (Buffer_of (running w)) w' = formatted_message e) ∧
    appended w w' = [Ev_mdb_strerror (_code e)] ∧
    (∀ name rc w0,
       buffer (raise name rc w0).2 = buffer w0 ∧
       count_events is_strerror (appended w0 (raise name rc w0).2) = 0%nat) ∧
    (∀ c w0,
       buffer (procedure c w0).2 = buffer w0 ∧
       count_events is_strerror (appended w0 (procedure c w0).2) = 0%nat).
Proof.
  eexists. split; [apply what_eq|].
  assert (c_str (Buffer_of (running w))
            (set_buffer
               (<[running w := String.substring 0 1023 (formatted_message e)]>
                  (buffer w))
               (record_event (Ev_mdb_strerror (_code e)) w)) =
          String.substring 0 1023 (formatted_message e)) as Hc.
  { unfold c_str. simpl. by rewrite lookup_insert_eq. }
  split_and!.
  - done.
  - intros Hlen. rewrite Hc. by apply substring_whole.
  - by apply appended_app.
  - intros name rc w0. rewrite raise_eq. simpl. split; [done|].
    by rewrite (appended_app w0 _ [Ev_raise name rc]).
  - apply procedure_buffer.
Qed.

(** ** One buffer per thread *)

Lemma query_on_eq (t : nat) (e : exception_object) (w : world) :
  query_on t e w =
  (Returned (Buffer_of t),
   set_buffer (<[t := String.substring 0 1023 (formatted_message e)]> (buffer w))
     (record_event (Ev_mdb_strerror (_code e)) (set_running t w))).
Proof. done. Qed.

Lemma query_on_other (t t' : nat) (e : exception_object) (w : world) :
  t' ≠ t → c_str (Buffer_of t) (query_on t' e w).2 = c_str (Buffer_of t) w.
Proof.
  intros Hne. rewrite query_on_eq. unfold c_str. simpl.
  by rewrite lookup_insert_ne.
Qed.

(** Queries by other threads leave a thread's buffer as it is. *)
Lemma run_queries_other (t : nat) (qs : list (nat * exception_object))
    (w : world) :
  Forall (λ q, q.1 ≠ t) qs →
  c_str (Buffer_of t) (run_queries qs w) = c_str (Buffer_of t) w.
Proof.
  intros H. revert w. induction H as [|[t' e'] qs Hq _ IH]; intros w; [done|].
  cbn [run_queries]. rewrite IH. by apply query_on_other.
Qed.

(** C9 (as amended): the message is kept in a buffer of the querying
    thread, shared by all exception objects queried on that thread: the
    string a query returns holds its object's message through any schedule
    of queries by other threads, on whatever objects, and the next query on
    the same thread returns the same buffer and overwrites it with the
    message of the object it is made on. *)
Theorem message_buffer_per_thread (t : nat) (e : exception_object) (w : world) :
  (query_on t e w).1 = Returned (Buffer_of t) ∧
  c_str (Buffer_of t) (query_on t e w).2 =
    String.substring 0 1023 (formatted_message e) ∧
  (∀ qs, Forall (λ q, q.1 ≠ t) qs →
     c_str (Buffer_of t) (run_queries qs (query_on t e w).2) =
     c_str (Buffer_of t) (query_on t e w).2) ∧
  (∀ e', (query_on t e' (query_on t e w).2).1 = Returned (Buffer_of t) ∧
     c_str (Buffer_of t) (query_on t e' (query_on t e w).2).2 =
       String.substring 0 1023 (formatted_message e')).
Proof.
  split_and!.
  - done.
  - rewrite query_on_eq. unfold c_str. simpl. by rewrite lookup_insert_eq.
  - intros qs Hqs. by apply run_queries_other.
  - intros e'. split; [done|].
    rewrite (query_on_eq t e'). unfold c_str. simpl.
    by rewrite lookup_insert_eq.
Qed.

End Properties.

(** * The theorems at work on the scripted engine *)

Section Scripted.
Local Existing Instance scripted_lmdb.

(** A key-exists status is dispatched to [key_exist_error]. *)
Lemma raise_dispatch_witness :
  (raise "mdb_put" (-30799) (fresh_world [])).1 =
  Thrown (key_exist_error "mdb_put" (-30799)).
Proof.
  apply (raise_dispatch "mdb_put" (-30799) (fresh_world [])).
  reflexivity.
Defined.

(** An [env_open] whose primitive answers 13 throws. *)
Lemma procedure_raises_iff_failure_witness :
  ∃ e, (procedure (Env_open 1 "/tmp/db" 0 420) (fresh_world [13])).1 = Thrown e.
Proof.
  destruct (procedure_raises_iff_failure (Env_open 1 "/tmp/db" 0 420)
              (fresh_world [13])) as (rc & w1 & Hp & _ & Hf & _).
  vm_compute in Hp. injection Hp as <- _.
  apply Hf. discriminate.
Defined.

(** The object raised for status 2 answers its accessors with 2 and the
    origin, called in any order. *)
Lemma raised_code_and_origin_witness :
  ∃ e w', raise "mdb_env_sync" 2 (fresh_world []) = (Thrown e, w') ∧
    (∀ w2, code e w2 = (Returned 2, w2)) ∧
    (∀ w2, origin e w2 = (Returned "mdb_env_sync", w2)) ∧
    (∀ l w2, call_accessors l e w2 =
       (Returned (map (λ a, match a with
                            | Acc_code => inl 2
                            | Acc_origin => inr "mdb_env_sync"
                            end) l), w2)).
Proof.
  apply (raised_code_and_origin "mdb_env_sync" 2 (fresh_world [])).
  discriminate.
Defined.

(** A failing [env_set_map_size] names [mdb_env_set_mapsize]. *)
Lemma origin_is_primitive_name_witness :
  (origin (error "mdb_env_set_mapsize" 22)
          (env_set_map_size 1 4096 (fresh_world [22])).2).1 =
  Returned "mdb_env_set_mapsize".
Proof.
  destruct (origin_is_primitive_name (fresh_world [22])
              (env_set_map_size 1 4096 (fresh_world [22])).2
              (error "mdb_env_set_mapsize" 22))
    as (_ & _ & _ & H & _).
  apply (H 1%N 4096). reflexivity.
Defined.

Lemma scripted_create_fail (s : scripted) rc out s' :
  scripted_env_create s = (rc, out, s') → rc ≠ MDB_SUCCESS → out = None.
Proof.
  unfold scripted_env_create. destruct (answer s) as [rc0 s0].
  case_bool_decide; intros [= <- <- <-]; done.
Qed.

Lemma scripted_create_ok (s : scripted) out s' :
  scripted_env_create s = (MDB_SUCCESS, out, s') →
  ∃ h, out = Some h ∧ listed_unopened s' h.
Proof.
  unfold scripted_env_create. destruct (answer s) as [rc0 s0].
  case_bool_decide; intros [= -> <- <-]; [|done].
  eexists. split; [done|]. unfold listed_unopened. simpl.
  apply list_elem_of_here.
Qed.

(** With the scripted engine, whose creation assigns only on success: a
    failing [env_create] leaves the slot at address 7 as it was, and a
    succeeding one stores a handle that the engine lists as unopened. *)
Lemma env_create_slot_witness :
  slots (env_create 7 (fresh_world [12])).2 !! 7%N =
    slots (fresh_world [12]) !! 7%N ∧
  ∃ h, slots (env_create 7 (fresh_world [])).2 !! 7%N = Some h ∧
       listed_unopened (eng (env_create 7 (fresh_world [])).2) h.
Proof.
  split.
  - destruct (env_create_slot (L := scripted_lmdb) 7 (fresh_world [12]))
      as [_ H].
    destruct (H listed_unopened scripted_create_fail scripted_create_ok)
      as [Hf _].
    apply (Hf (error "mdb_env_create" 12)). reflexivity.
  - destruct (env_create_slot (L := scripted_lmdb) 7 (fresh_world []))
      as [_ H].
    destruct (H listed_unopened scripted_create_fail scripted_create_ok)
      as [_ Hs].
    apply Hs. reflexivity.
Defined.

(** A short message is stored whole. *)
Lemma what_message_witness :
  c_str (Buffer_of 0) (what (error "mdb_env_open" 2) (fresh_world [])).2 =
  "mdb_env_open: Unknown error".
Proof.
  destruct (what_message (error "mdb_env_open" 2) (fresh_world []))
    as (w' & Hw & _ & Hshort & _).
  vm_compute in Hw. injection Hw as <-.
  apply Hshort. vm_compute. lia.
Defined.

(** C5, the counterexample: with an origin of 1024 characters the buffer
    holds 1023 characters, not the origin followed by the separator and
    the engine's text. *)
Lemma what_truncates_long_origin :
  (what (error (copies 1024 "a"%char) 2) (fresh_world [])).1 =
    Returned (Buffer_of 0) ∧
  c_str (Buffer_of 0) (what (error (copies 1024 "a"%char) 2) (fresh_world [])).2 ≠
    copies 1024 "a"%char +:+ ": " +:+ engine_strerror 2 ∧
  c_str (Buffer_of 0) (what (error (copies 1024 "a"%char) 2) (fresh_world [])).2 =
    copies 1023 "a"%char.
Proof.
  split_and!.
  - reflexivity.
  - intros H. apply (f_equal String.length) in H. vm_compute in H.
    discriminate.
  - vm_compute. reflexivity.
Qed.

(** Thread 0 queries one object, threads 1 and 2 query others: the string
    of thread 0 is as it was. *)
Lemma message_buffer_per_thread_witness :
  c_str (Buffer_of 0)
    (run_queries [(1%nat, error "mdb_env_sync" 5);
                  (2%nat, not_found_error "mdb_get" (-30798))]
       (query_on 0 (error "mdb_env_open" 2) (fresh_world [])).2) =
  c_str (Buffer_of 0) (query_on 0 (error "mdb_env_open" 2) (fresh_world [])).2.
Proof.
  destruct (message_buffer_per_thread 0 (error "mdb_env_open" 2)
              (fresh_world [])) as (_ & _ & H & _).
  apply H. repeat constructor; simpl; lia.
Defined.

(** C9, the counterexample: two distinct objects queried on one thread get
    the same pointer, and after the second query the string obtained for
    the first object is the message of the second. *)
Lemma what_overwrites_on_same_thread :
  let e1 := error "mdb_env_open" 2 in
  let e2 := key_exist_error "mdb_put" (-30799) in
  let r1 := what e1 (fresh_world []) in
  let r2 := what e2 r1.2 in
  e1 ≠ e2 ∧
  r1.1 = Returned (Buffer_of 0) ∧ r2.1 = Returned (Buffer_of 0) ∧
  c_str (Buffer_of 0) r1.2 = "mdb_env_open: Unknown error" ∧
  c_str (Buffer_of 0) r2.2 =
    "mdb_put: MDB_KEYEXIST: Key/data pair already exists" ∧
  c_str (Buffer_of 0) r2.2 ≠ c_str (Buffer_of 0) r1.2.
Proof.
  split_and!; try reflexivity; discriminate.
Qed.

End Scripted.

(** * Further properties: composition, frames and bounds *)

Section Composition.
Context {L : Lmdb}.

(** The primitives of a block append one call event each. *)
Lemma run_primitives_trace (cs : list fallible_call) (w : world) :
  ∃ evs, trace (run_primitives cs w) = trace w ++ evs ∧
    length evs = length cs ∧
    List.filter is_primitive_call evs = evs.
Proof.
  revert w. induction cs as [|c cs IH]; intros w.
  - exists []. by rewrite app_nil_r.
  - destruct (primitive_returns c w) as (rc & w1 & ev & Hp & Ht & Hev & _).
    destruct (IH w1) as (evs & Hevs & Hlen & Hfil).
    exists (ev :: evs). simpl. rewrite Hp. simpl.
    rewrite Hevs, Ht, <-app_assoc, Hev, Hfil, Hlen. done.
Qed.

Lemma run_primitives_app (pre post : list fallible_call) (w : world) :
  run_primitives (pre ++ post) w = run_primitives post (run_primitives pre w).
Proof. revert w. induction pre as [|c pre IH]; intros w; [done|]. apply IH. Qed.

(** A call's primitive returns a status and appends its event; the
    procedure returns in that world on [MDB_SUCCESS] and is a run of
    [raise] in it otherwise. *)
Lemma procedure_by_status (c : fallible_call) (w : world) :
  ∃ rc w1 ev,
    primitive_of c w = (Returned rc, w1) ∧
    trace w1 = trace w ++ [ev] ∧ is_primitive_call ev = true ∧
    (rc = MDB_SUCCESS → procedure c w = (Returned tt, w1)) ∧
    (rc ≠ MDB_SUCCESS → procedure c w = raise (name_of c) rc w1).
Proof.
  destruct (primitive_returns c w) as (rc & w1 & ev & Hp & Ht & Hev & _).
  exists rc, w1, ev. rewrite procedure_template. split_and!; try done.
  - intros ->. by apply template_success.
  - intros Hrc. by apply template_failure.
Qed.

(** X1: a block of calls stops at the first call whose primitive fails:
    either every primitive answers [MDB_SUCCESS] and the block returns in
    the world the primitives left, or the block is a prefix of successful
    calls, a call whose primitive answers another status and a rest; then
    the block is one run of [raise] with that call's name and status in
    the world after the primitives of the prefix and of the failing call:
    the calls of the rest are never made and nothing is undone. The number
    of primitive calls made never exceeds the length of the block. *)
Theorem run_all_stops_at_first_failure (cs : list fallible_call) (w : world) :
  ((all_succeed cs w ∧ run_all cs w = (Returned tt, run_primitives cs w)) ∨
   (∃ pre c post rc,
      cs = pre ++ c :: post ∧ all_succeed pre w ∧
      (primitive_of c (run_primitives pre w)).1 = Returned rc ∧
      rc ≠ MDB_SUCCESS ∧
      run_all cs w =
        raise (name_of c) rc (run_primitives (pre ++ [c]) w) ∧
      count_events is_primitive_call (appended w (run_all cs w).2) =
        S (length pre))) ∧
  (count_events is_primitive_call (appended w (run_all cs w).2) ≤ length cs)%nat.
Proof.
  revert w. induction cs as [|c cs IH]; intros w.
  - split; [left; done|]. simpl.
    by rewrite (appended_app w w []) by (by rewrite app_nil_r).
  - destruct (procedure_by_status c w)
      as (rc & w1 & ev & Hp & Ht & Hev & Hok & Hfail).
    destruct (decide (rc = MDB_SUCCESS)) as [->|Hrc].
    + specialize (Hok eq_refl).
      assert (run_all (c :: cs) w = run_all cs w1) as Hrun.
      { simpl. by rewrite (bind_returned _ _ _ _ _ Hok). }
      rewrite Hrun.
      destruct (IH w1) as [Hcases Hcount].
      assert (∀ w', trace w' = trace w1 ++ appended w1 w' →
                appended w w' = ev :: appended w1 w') as Happ.
      { intros w' Hw'. apply appended_app.
        by rewrite Hw', Ht, <-app_assoc. }
      assert (trace (run_all cs w1).2 =
              trace w1 ++ appended w1 (run_all cs w1).2) as Hext.
      { destruct Hcases as [[_ ->]|(pre & c' & post & rc' & _ & _ & _ & _ & -> & _)].
        - simpl. destruct (run_primitives_trace cs w1) as (evs & He & _).
          by rewrite (appended_app _ _ _ He).
        - rewrite raise_eq. simpl.
          destruct (run_primitives_trace (pre ++ [c']) w1) as (evs & He & _).
          rewrite He, <-app_assoc. symmetry. f_equal.
          apply appended_app. simpl. by rewrite He, <-app_assoc. }
      rewrite (Happ _ Hext).
      assert (count_events is_primitive_call (ev :: appended w1 (run_all cs w1).2)
              = S (count_events is_primitive_call (appended w1 (run_all cs w1).2)))
        as Hc.
      { unfold count_events. simpl. by rewrite Hev. }
      rewrite Hc. split; [|simpl; lia].
      destruct Hcases as [[Hall Heq]|(pre & c' & post & rc' & -> & Hall & Hs & Hne & Heq & Hn)].
      * left. simpl. rewrite Hp. simpl. done.
      * right. exists (c :: pre), c', post, rc'. simpl. rewrite Hp. simpl.
        split_and!; try done. by rewrite Hn.
    + specialize (Hfail Hrc).
      assert (run_all (c :: cs) w = raise (name_of c) rc w1) as Hrun.
      { simpl. rewrite raise_eq. apply bind_thrown.
        by rewrite Hfail, raise_eq. }
      assert (count_events is_primitive_call (appended w (run_all (c :: cs) w).2)
              = 1%nat) as Hc.
      { rewrite Hrun, raise_eq. simpl.
        rewrite (appended_app w _ [ev; Ev_raise (name_of c) rc]).
        - unfold count_events. simpl. by rewrite Hev.
        - simpl. by rewrite Ht, <-app_assoc. }
      rewrite Hc. split; [|simpl; lia].
      right. exists [], c, cs, rc. simpl. rewrite Hp. simpl.
      split_and!; done.
Qed.

(** ** The caller's handle variables *)

Lemma primitive_slots (c : fallible_call) (w : world) (a : N) :
  c ≠ Env_create a → slots (primitive_of c w).2 !! a = slots w !! a.
Proof.
  intros Hc.
  destruct c; simpl;
    try (unfold mdb_env_open, mdb_env_set_flags, mdb_env_set_mapsize,
           mdb_env_set_maxreaders, mdb_env_set_maxdbs, mdb_env_sync;
         by rewrite engine_call_eq).
  unfold mdb_env_create.
  destruct (engine_env_create (eng w)) as [[rc out] e'].
  destruct out as [h|]; [|done]. simpl.
  apply lookup_insert_ne. intros ->. by apply Hc.
Qed.

Lemma procedure_slots (c : fallible_call) (w : world) :
  slots (procedure c w).2 = slots (primitive_of c w).2.
Proof.
  destruct (procedure_by_status c w) as (rc & w1 & ev & Hp & _ & _ & Hok & Hfail).
  rewrite Hp. destruct (decide (rc = MDB_SUCCESS)) as [Hrc|Hrc].
  - by rewrite (Hok Hrc).
  - by rewrite (Hfail Hrc), raise_eq.
Qed.

(** X2: the procedures leave the caller's handle variables alone: a call
    changes no variable other than the one whose address is given to
    [env_create], whether it returns or throws; the procedures that take a
    handle by value change none, and [env_close] in particular leaves the
    closed handle in the caller's variable. *)
Theorem caller_variables_frame (c : fallible_call) (w : world) :
  (∀ a, c ≠ Env_create a → slots (procedure c w).2 !! a = slots w !! a) ∧
  ((∀ a, c ≠ Env_create a) → slots (procedure c w).2 = slots w) ∧
  (∀ h, slots (env_close h w).2 = slots w).
Proof.
  split_and!.
  - intros a Hc. rewrite procedure_slots. by apply primitive_slots.
  - intros Hc. apply map_eq. intros a.
    rewrite procedure_slots. by apply primitive_slots.
  - done.
Qed.

(** ** What a procedure throws *)

(** X3: the error that a fallible procedure throws carries the status its
    primitive returned, which is not [MDB_SUCCESS], and its class is chosen
    by that status alone: [key_exist_error] exactly for [MDB_KEYEXIST],
    [not_found_error] exactly for [MDB_NOTFOUND], the generic [error]
    exactly for the others. *)
Theorem thrown_code_is_status (c : fallible_call) (w w' : world)
    (e : exception_object) :
  procedure c w = (Thrown e, w') →
  (primitive_of c w).1 = Returned (_code e) ∧
  _code e ≠ MDB_SUCCESS ∧
  (dynamic_type e = lmdb_key_exist_error ↔ _code e = MDB_KEYEXIST) ∧
  (dynamic_type e = lmdb_not_found_error ↔ _code e = MDB_NOTFOUND) ∧
  (dynamic_type e = lmdb_error ↔
     _code e ≠ MDB_KEYEXIST ∧ _code e ≠ MDB_NOTFOUND).
Proof.
  intros H.
  destruct (procedure_by_status c w) as (rc & w1 & ev & Hp & _ & _ & Hok & Hfail).
  destruct (decide (rc = MDB_SUCCESS)) as [Hrc|Hrc].
  { by rewrite (Hok Hrc) in H. }
  rewrite (Hfail Hrc), raise_eq in H. injection H as <- _.
  rewrite Hp. simpl. unfold selected_class.
  pose proof case_labels_distinct as Hd.
  split_and!; try done; repeat case_decide; split; try done;
    try (intros [? ?]; done); congruence.
Qed.

(** X4: handlers around a procedure. When the procedure returns, a
    [try] block around it returns the same; when it throws, a handler for
    [lmdb::error], for [std::runtime_error] or for [std::exception] runs
    with the thrown object in the world of the throw, and a handler for
    [key_exist_error] (for [not_found_error]) runs exactly when the status
    was [MDB_KEYEXIST] ([MDB_NOTFOUND]): otherwise the exception passes
    through unchanged. *)
Theorem handlers_around_procedure (c : fallible_call) (w : world)
    (handler : exception_object → M unit) :
  match procedure c w with
  | (Returned _, w') =>
      ∀ T, try_catch (procedure c) T handler w = (Returned tt, w')
  | (Thrown e, w') =>
      try_catch (procedure c) lmdb_error handler w = handler e w' ∧
      try_catch (procedure c) std_runtime_error handler w = handler e w' ∧
      try_catch (procedure c) std_exception handler w = handler e w' ∧
      try_catch (procedure c) lmdb_key_exist_error handler w =
        (if decide (_code e = MDB_KEYEXIST) then handler e w'
         else (Thrown e, w')) ∧
      try_catch (procedure c) lmdb_not_found_error handler w =
        (if decide (_code e = MDB_NOTFOUND) then handler e w'
         else (Thrown e, w'))
  end.
Proof.
  destruct (procedure_by_status c w) as (rc & w1 & ev & Hp & _ & _ & Hok & Hfail).
  unfold try_catch.
  destruct (decide (rc = MDB_SUCCESS)) as [Hrc|Hrc].
  { rewrite (Hok Hrc). done. }
  rewrite (Hfail Hrc), raise_eq. simpl. unfold selected_class.
  pose proof case_labels_distinct as Hd.
  repeat case_decide; simplify_eq; done.
Qed.

(** ** The message buffer *)

Lemma substring_prefix (s : string) (n : nat) :
  String.prefix (String.substring 0 n s) s = true.
Proof.
  revert n. induction s as [|a s IH]; intros [|n]; simpl; try done.
  destruct (Ascii.ascii_dec a a); [apply IH|done].
Qed.

Lemma substring_app_l (s1 s2 : string) (n : nat) :
  (n ≤ String.length s1)%nat →
  String.substring 0 n (s1 +:+ s2) = String.substring 0 n s1.
Proof.
  revert n. induction s1 as [|a s1 IH]; intros [|n] Hn; simpl in *;
    try lia; try (by destruct s2).
  f_equal. apply IH. lia.
Qed.

(** X5: whatever the origin and the engine's text, the string that [what]
    leaves in the buffer has at most 1023 characters (with its terminator
    it fits the 1024 bytes) and is a prefix of origin, ": " and the
    engine's text; when the origin alone has 1023 characters or more, it
    is the first 1023 characters of the origin, and nothing of the
    separator or of the engine's text is stored. *)
Theorem what_message_bounded (e : exception_object) (w : world) :
  (String.length (c_str (Buffer_of (running w)) (what e w).2) ≤ 1023)%nat ∧
  String.prefix (c_str (Buffer_of (running w)) (what e w).2)
                (formatted_message e) = true ∧
  ((1023 ≤ String.length (what_arg e))%nat →
     c_str (Buffer_of (running w)) (what e w).2 =
     String.substring 0 1023 (what_arg e)).
Proof.
  rewrite what_eq. unfold c_str. simpl. rewrite lookup_insert_eq. simpl.
  split_and!.
  - apply substring_length_le.
  - apply substring_prefix.
  - intros Hlen. unfold formatted_message. by apply substring_app_l.
Qed.

(** X6: [what] never throws; it changes neither the engine nor the
    caller's variables nor the buffer of another thread; and asking again
    on the same thread returns the same pointer and leaves every buffer as
    the first query left it. *)
Theorem what_idempotent (e : exception_object) (w : world) :
  (∀ x w', what e w ≠ (Thrown x, w')) ∧
  eng (what e w).2 = eng w ∧ slots (what e w).2 = slots w ∧
  running (what e w).2 = running w ∧
  (∀ t, t ≠ running w → buffer (what e w).2 !! t = buffer w !! t) ∧
  (what e (what e w).2).1 = (what e w).1 ∧
  buffer (what e (what e w).2).2 = buffer (what e w).2.
Proof.
  rewrite !what_eq. simpl. split_and!; try done.
  - intros t Ht. by apply lookup_insert_ne.
  - apply insert_insert_eq.
Qed.

(** X7: nothing is cached: a schedule of queries asks the engine for the
    text once for each query, in the order of the schedule, and makes no
    other call. *)
Theorem queries_format_each_time (qs : list (nat * exception_object))
    (w : world) :
  appended w (run_queries qs w) = map (λ q, Ev_mdb_strerror (_code q.2)) qs ∧
  count_events is_strerror (appended w (run_queries qs w)) = length qs ∧
  count_events is_primitive_call (appended w (run_queries qs w)) = 0%nat ∧
  eng (run_queries qs w) = eng w.
Proof.
  assert (trace (run_queries qs w) =
          trace w ++ map (λ q, Ev_mdb_strerror (_code q.2)) qs ∧
          eng (run_queries qs w) = eng w) as [Ht He].
  { revert w. induction qs as [|[t e] qs IH]; intros w.
    - simpl. by rewrite app_nil_r.
    - cbn [run_queries]. destruct (IH (query_on t e w).2) as [-> ->].
      rewrite query_on_eq. simpl. by rewrite <-app_assoc. }
  rewrite (appended_app _ _ _ Ht). split_and!; try done.
  - unfold count_events. clear. induction qs as [|q qs IH]; simpl; [done|].
    by rewrite IH.
  - unfold count_events. clear. induction qs as [|q qs IH]; simpl; done.
Qed.

(** ** No state of the layer's own *)

Lemma primitive_by_engine (c : fallible_call) (w1 w2 : world) :
  eng w1 = eng w2 →
  (primitive_of c w1).1 = (primitive_of c w2).1 ∧
  eng (primitive_of c w1).2 = eng (primitive_of c w2).2.
Proof.
  intros He.
  destruct c; simpl;
    try (unfold mdb_env_open, mdb_env_set_flags, mdb_env_set_mapsize,
           mdb_env_set_maxreaders, mdb_env_set_maxdbs, mdb_env_sync;
         rewrite !engine_call_eq; simpl; by rewrite He).
  unfold mdb_env_create. rewrite He.
  destruct (engine_env_create (eng w2)) as [[rc out] e'].
  by destruct out.
Qed.

(** X10: the layer keeps no state between calls: whether a procedure
    returns or throws, what it throws, and the state it leaves the engine
    in depend on the state of the engine alone, not on earlier calls, on
    the caller's variables, on the message buffers or on the running
    thread; the same holds for [env_close], which is forwarded each time
    it is called, also on a handle that was closed before. *)
Theorem procedures_are_stateless (c : fallible_call) (w1 w2 : world) :
  eng w1 = eng w2 →
  (procedure c w1).1 = (procedure c w2).1 ∧
  eng (procedure c w1).2 = eng (procedure c w2).2 ∧
  (∀ h, (env_close h w1).1 = (env_close h w2).1 ∧
        eng (env_close h w1).2 = eng (env_close h w2).2 ∧
        appended w1 (env_close h (env_close h w1).2).2 =
          [Ev_mdb_env_close h; Ev_mdb_env_close h]).
Proof.
  intros He.
  destruct (primitive_by_engine c w1 w2 He) as [Hs Hn].
  destruct (procedure_by_status c w1) as (rc & u1 & ev1 & Hp1 & _ & _ & Hok1 & Hf1).
  destruct (procedure_by_status c w2) as (rc2 & u2 & ev2 & Hp2 & _ & _ & Hok2 & Hf2).
  rewrite Hp1, Hp2 in Hs, Hn. simpl in Hs, Hn. injection Hs as <-.
  split_and!.
  - destruct (decide (rc = MDB_SUCCESS)) as [Hrc|Hrc].
    + by rewrite (Hok1 Hrc), (Hok2 Hrc).
    + by rewrite (Hf1 Hrc), (Hf2 Hrc), !raise_eq.
  - destruct (decide (rc = MDB_SUCCESS)) as [Hrc|Hrc].
    + by rewrite (Hok1 Hrc), (Hok2 Hrc).
    + by rewrite (Hf1 Hrc), (Hf2 Hrc), !raise_eq.
  - intros h. unfold env_close, mdb_env_close. simpl. rewrite He.
    split_and!; try done.
    apply appended_app. simpl. by rewrite <-app_assoc.
Qed.

(** ** The shape of the hierarchy *)

(** X8: a handler's class matches a thrown class exactly along the chain of
    public bases; every class of the layer is a [std::exception]; matching
    is transitive and antisymmetric; and neither of the two final classes
    matches the other, nor does either catch the generic [error]. *)
Theorem hierarchy_shape :
  (∀ d b, is_a d b = true ↔ rtc (λ x y, base x = Some y) d b) ∧
  (∀ d, is_a d std_exception = true) ∧
  (∀ x y z, is_a x y = true → is_a y z = true → is_a x z = true) ∧
  (∀ x y, is_a x y = true → is_a y x = true → x = y) ∧
  is_a lmdb_key_exist_error lmdb_not_found_error = false ∧
  is_a lmdb_not_found_error lmdb_key_exist_error = false ∧
  is_a lmdb_error lmdb_key_exist_error = false ∧
  is_a lmdb_error lmdb_not_found_error = false.
Proof.
  split_and!; try done.
  - apply is_a_spec.
  - by intros [].
  - intros x y z. rewrite !is_a_spec. apply rtc_trans.
  - by intros [] [].
Qed.

End Composition.

(** * The further properties at work on the scripted engine *)

Section ScriptedComposition.
Local Existing Instance scripted_lmdb.

(** An [env_open] that fails leaves the variable at address 7 alone. *)
Lemma caller_variables_frame_witness :
  slots (procedure (Env_open 1 "/tmp/db" 0 420) (fresh_world [13])).2 !! 7%N =
  slots (fresh_world [13]) !! 7%N.
Proof.
  destruct (caller_variables_frame (Env_open 1 "/tmp/db" 0 420)
              (fresh_world [13])) as [H _].
  apply H. discriminate.
Defined.

(** An [env_set_max_dbs] whose primitive answers [MDB_KEYEXIST] throws a
    [key_exist_error] with that code. *)
Lemma thrown_code_is_status_witness :
  _code (key_exist_error "mdb_env_set_maxdbs" (-30799)) ≠ MDB_SUCCESS ∧
  (dynamic_type (key_exist_error "mdb_env_set_maxdbs" (-30799)) =
     lmdb_key_exist_error ↔
   _code (key_exist_error "mdb_env_set_maxdbs" (-30799)) = MDB_KEYEXIST).
Proof.
  destruct (thrown_code_is_status (Env_set_max_dbs 1 4)
              (fresh_world [-30799])
              (procedure (Env_set_max_dbs 1 4) (fresh_world [-30799])).2
              (key_exist_error "mdb_env_set_maxdbs" (-30799)) eq_refl)
    as (_ & H1 & H2 & _).
  split; assumption.
Defined.

(** An origin of 1030 characters: the first 1023 are stored. *)
Lemma what_message_bounded_witness :
  c_str (Buffer_of 0)
        (what (error (copies 1030 "a"%char) 2) (fresh_world [])).2 =
  String.substring 0 1023 (copies 1030 "a"%char).
Proof.
  destruct (what_message_bounded (error (copies 1030 "a"%char) 2)
              (fresh_world [])) as (_ & _ & H).
  apply H. vm_compute. lia.
Defined.

(** A query by thread 0 leaves the buffer of thread 3 as it was. *)
Lemma what_idempotent_witness :
  buffer (what (error "mdb_env_open" 2) (fresh_world [])).2 !! 3%nat =
  buffer (fresh_world []) !! 3%nat.
Proof.
  destruct (what_idempotent (error "mdb_env_open" 2) (fresh_world []))
    as (_ & _ & _ & _ & H & _).
  apply H. discriminate.
Defined.

(** A failing [env_sync]: the message is the name, the separator and the
    engine's text. *)
Lemma procedure_message_whole_witness :
  c_str (Buffer_of 0)
        (what (error "mdb_env_sync" 5) (fresh_world [])).2 =
  "mdb_env_sync: Unknown error".
Proof.
  apply (procedure_message_whole (Env_sync 1 true) (fresh_world [5])
           (procedure (Env_sync 1 true) (fresh_world [5])).2
           (fresh_world []) (error "mdb_env_sync" 5)).
  - reflexivity.
  - vm_compute. lia.
Defined.

(** The same engine state under different histories, variables and
    threads: [env_open] ends the same way. *)
Lemma procedures_are_stateless_witness :
  (procedure (Env_open 1 "/tmp/db" 0 420) (fresh_world [13])).1 =
  (procedure (Env_open 1 "/tmp/db" 0 420)
     (set_running 4 (set_slots {[ 7%N := 1%N ]}
        (record_event (Ev_mdb_strerror 2) (fresh_world [13]))))).1.
Proof.
  apply (procedures_are_stateless (Env_open 1 "/tmp/db" 0 420)
           (fresh_world [13])
           (set_running 4 (set_slots {[ 7%N := 1%N ]}
              (record_event (Ev_mdb_strerror 2) (fresh_world [13]))))).
  reflexivity.
Defined.

End ScriptedComposition.
